(** * py2cs: the Python-to-C# tree walker of [py2cs.py]

    A shallow embedding of the translation engine of [src/py2cs.py] and the
    properties its specification states about it.

    Conventions of the embedding.

    - Python text is [string]; [+] on text is [++]; [sep.join(l)] is
      [String.concat sep l].
    - A Python call either returns or raises.  Every walker therefore returns a
      [result]: [Ok v] for a returned value and [Raised e] for an exception,
      sequenced left to right in the order in which Python evaluates the operands
      of the source expression.
    - Python is dynamically typed and the walkers dispatch with [isinstance], so
      there is one type [node] for everything a walker can be handed: [None],
      statement nodes and expression nodes of the [ast] module.  A node carries
      the attributes that [py2cs.py] reads; attributes that no line of the
      program reads ([ctx], [keywords], [decorator_list], the [orelse] of loops,
      the children of node classes the translator rejects, ...) are left out.
    - A walker that the dispatcher only ever calls on its own node class takes
      that node's attributes as its arguments.  [walk_bin_op], which the
      dispatcher calls on two classes, takes the node.
    - The node classes are those of the [ast] module of Python 3.9 to 3.13, the
      versions that accept the program's annotations and still have [Num] and
      [Str]: an [isinstance] test against these two holds of an [ast.Constant]
      with a numeric, respectively textual, value.
    - The interpreter's recursion limit is not modelled. *)

From Stdlib Require Import ZArith List Bool Lia.
From Stdlib Require Import Strings.String Strings.Ascii Numbers.DecimalString.
From Stdlib Require Numbers.DecimalZ Numbers.DecimalPos.
Import ListNotations.

Set Warnings "-register-all".

Local Open Scope list_scope.
Local Open Scope string_scope.

(** ** Text helpers *)

(** The line feed, tab and double-quote characters of the source's literals. *)
Definition LF : string := String "010"%char EmptyString.
Definition TAB : string := String "009"%char EmptyString.
Definition DQUOTE : string := String "034"%char EmptyString.

(** [sep.join(l)] *)
Definition join (sep : string) (l : list string) : string := String.concat sep l.

(** [str(n)] for a Python [int]. *)
Definition str_int (n : Z) : string := NilZero.string_of_int (Z.to_int n).

(** ** Operator tags

    The classes [operator], [cmpop], [boolop] and [unaryop] of the [ast] module.
    [py2cs.py] tells them apart by [op.__class__.__name__] only, so they form one
    enumeration here. *)
Module Op.

Inductive tag : Type :=
  (* operator *)
  | Add | Sub | Mult | MatMult | Div | Mod | Pow
  | LShift | RShift | BitOr | BitXor | BitAnd | FloorDiv
  (* cmpop *)
  | Eq | NotEq | Lt | LtE | Gt | GtE | Is | IsNot | In | NotIn
  (* boolop *)
  | And | Or
  (* unaryop *)
  | Invert | Not | UAdd | USub.

(** [op.__class__.__name__] *)
Definition class_name (op : tag) : string :=
  match op with
  | Add => "Add" | Sub => "Sub" | Mult => "Mult" | MatMult => "MatMult"
  | Div => "Div" | Mod => "Mod" | Pow => "Pow"
  | LShift => "LShift" | RShift => "RShift" | BitOr => "BitOr"
  | BitXor => "BitXor" | BitAnd => "BitAnd" | FloorDiv => "FloorDiv"
  | Eq => "Eq" | NotEq => "NotEq" | Lt => "Lt" | LtE => "LtE"
  | Gt => "Gt" | GtE => "GtE" | Is => "Is" | IsNot => "IsNot"
  | In => "In" | NotIn => "NotIn"
  | And => "And" | Or => "Or"
  | Invert => "Invert" | Not => "Not" | UAdd => "UAdd" | USub => "USub"
  end.

Definition eq_dec (a b : tag) : {a = b} + {a <> b}.
Proof. decide equality. Defined.

End Op.

(** ** Exceptions and results *)

Inductive exn : Type :=
  (** [Exception("Unsupported statement type: " + str(type(statement)))];
      [kind] is the name of the class of the offending object. *)
  | UnsupportedStatement (kind : string)
  (** [Exception("Unsupported expression type: " + str(type(expression)))] *)
  | UnsupportedExpression (kind : string)
  (** [Exception("Unsupported binary operator: " + str(op))] *)
  | UnsupportedOperator (op : Op.tag)
  (** ['kind' object has no attribute 'attr'] *)
  | AttributeError (kind attr : string)
  (** [list index out of range] *)
  | IndexError.

Inductive result (A : Type) : Type :=
  | Ok (a : A)
  | Raised (e : exn).

Arguments Ok {A} a.
Arguments Raised {A} e.

Definition bind {A B : Type} (m : result A) (k : A -> result B) : result B :=
  match m with
  | Ok a => k a
  | Raised e => Raised e
  end.

Notation "x <- m ;; k" := (bind m (fun x => k))
  (at level 61, m at next level, right associativity).

(** A list comprehension [[f(x) for x in l]]: the elements are computed in order
    and the first exception ends the comprehension. *)
Section Comprehension.
Context {A B : Type}.
Variable f : A -> result B.

Fixpoint comprehension (l : list A) : result (list B) :=
  match l with
  | [] => Ok []
  | x :: xs =>
      y <- f x ;;
      ys <- comprehension xs ;;
      Ok (y :: ys)
  end.
End Comprehension.

(** [l[0]]: the first element, or [IndexError] on the empty list. *)
Definition subscript0 {A : Type} (l : list A) : result A :=
  match l with
  | [] => Raised IndexError
  | x :: _ => Ok x
  end.

(** ** The syntax tree *)

(** The value of an [ast.Constant].  A [float], [complex] or [bytes] value is
    carried by the text [str] gives for it, the only thing the translator does
    with such a value. *)
Inductive constant : Type :=
  | KInt (n : Z)
  | KFloat (text : string)
  | KComplex (text : string)
  | KStr (s : string)
  | KBytes (text : string)
  | KBool (b : bool)
  | KNone
  | KEllipsis.

(** [type(value).__name__] *)
Definition constant_type_name (c : constant) : string :=
  match c with
  | KInt _ => "int"
  | KFloat _ => "float"
  | KComplex _ => "complex"
  | KStr _ => "str"
  | KBytes _ => "bytes"
  | KBool _ => "bool"
  | KNone => "NoneType"
  | KEllipsis => "ellipsis"
  end.

(** [ast.arg] and [ast.arguments]: the translator reads [arguments.args] and
    the [arg] of each of its elements. *)
Record arg_ : Type := mk_arg { arg : string }.
Record arguments : Type := mk_arguments { args : list arg_ }.

Inductive node : Type :=
  | NoneObj
  (* stmt: the classes walk_statement dispatches on *)
  | FunctionDef (name : string) (args : arguments) (body : list node) (returns : node)
  | ClassDef (name : string) (bases : list node) (body : list node)
  | Return (value : node)
  | Assign (targets : list node) (value : node)
  | For (target iter : node) (body : list node)
  | While (test : node) (body : list node)
  | If (test : node) (body orelse : list node)
  | Expr (value : node)
  (* stmt: the other classes; three of them have a [value] attribute *)
  | AugAssign (value : node)
  | AnnAssign (value : node)
  | TypeAlias (value : node)
  | AsyncFunctionDef | Delete | AsyncFor | With | AsyncWith | Match
  | Raise | Try | TryStar | Assert | Import | ImportFrom | Global | Nonlocal
  | Pass | Break | Continue
  (* expr: the classes walk_expression dispatches on *)
  | BinOp (left : node) (op : Op.tag) (right : node)
  | BoolOp (op : Op.tag) (values : list node)
  | Compare (left : node) (ops : list Op.tag) (comparators : list node)
  | UnaryOp (op : Op.tag) (operand : node)
  | Lambda (args : arguments) (body : node)
  | Call (func : node) (args : list node)
  | Constant (value : constant)
  | Name (id : string)
  (* expr: the other classes that have a [value] attribute *)
  | NamedExpr (value : node)
  | DictComp (value : node)
  | Await (value : node)
  | Yield (value : node)
  | YieldFrom (value : node)
  | FormattedValue (value : node)
  | Attribute (value : node)
  | Subscript (value : node)
  | Starred (value : node)
  (* expr: the other classes that have none *)
  | IfExp | Dict | SetDisplay | ListComp | SetComp | GeneratorExp
  | JoinedStr | ListDisplay | TupleDisplay | Slice.

(** The root of a tree: [ast.Module], of which [walk_tree] reads [body]. *)
Record module_ : Type := mk_module { module_body : list node }.

(** [type(x).__name__].  [SetDisplay], [ListDisplay] and [TupleDisplay] stand for
    the classes [ast.Set], [ast.List] and [ast.Tuple]. *)
Definition class_name (x : node) : string :=
  match x with
  | NoneObj => "NoneType"
  | FunctionDef _ _ _ _ => "FunctionDef"
  | ClassDef _ _ _ => "ClassDef"
  | Return _ => "Return"
  | Assign _ _ => "Assign"
  | For _ _ _ => "For"
  | While _ _ => "While"
  | If _ _ _ => "If"
  | Expr _ => "Expr"
  | AugAssign _ => "AugAssign"
  | AnnAssign _ => "AnnAssign"
  | TypeAlias _ => "TypeAlias"
  | AsyncFunctionDef => "AsyncFunctionDef"
  | Delete => "Delete"
  | AsyncFor => "AsyncFor"
  | With => "With"
  | AsyncWith => "AsyncWith"
  | Match => "Match"
  | Raise => "Raise"
  | Try => "Try"
  | TryStar => "TryStar"
  | Assert => "Assert"
  | Import => "Import"
  | ImportFrom => "ImportFrom"
  | Global => "Global"
  | Nonlocal => "Nonlocal"
  | Pass => "Pass"
  | Break => "Break"
  | Continue => "Continue"
  | BinOp _ _ _ => "BinOp"
  | BoolOp _ _ => "BoolOp"
  | Compare _ _ _ => "Compare"
  | UnaryOp _ _ => "UnaryOp"
  | Lambda _ _ => "Lambda"
  | Call _ _ => "Call"
  | Constant _ => "Constant"
  | Name _ => "Name"
  | NamedExpr _ => "NamedExpr"
  | DictComp _ => "DictComp"
  | Await _ => "Await"
  | Yield _ => "Yield"
  | YieldFrom _ => "YieldFrom"
  | FormattedValue _ => "FormattedValue"
  | Attribute _ => "Attribute"
  | Subscript _ => "Subscript"
  | Starred _ => "Starred"
  | IfExp => "IfExp"
  | Dict => "Dict"
  | SetDisplay => "Set"
  | ListComp => "ListComp"
  | SetComp => "SetComp"
  | GeneratorExp => "GeneratorExp"
  | JoinedStr => "JoinedStr"
  | ListDisplay => "List"
  | TupleDisplay => "Tuple"
  | Slice => "Slice"
  end.

(** [isinstance(x, Num)]: an [ast.Constant] whose value is an [int], a [float]
    or a [complex], and not a [bool]. *)
Definition is_Num (x : node) : bool :=
  match x with
  | Constant (KInt _) | Constant (KFloat _) | Constant (KComplex _) => true
  | _ => false
  end.

(** [isinstance(x, Str)]: an [ast.Constant] whose value is a [str]. *)
Definition is_Str (x : node) : bool :=
  match x with
  | Constant (KStr _) => true
  | _ => false
  end.

(** ** Operator table *)

Definition get_bin_op_symbol (op : Op.tag) : result string :=
  if Op.class_name op =? "Add" then Ok "+"
  else if Op.class_name op =? "Sub" then Ok "-"
  else if Op.class_name op =? "Mult" then Ok "*"
  else if Op.class_name op =? "Div" then Ok "/"
  else if Op.class_name op =? "Mod" then Ok "%"
  else if Op.class_name op =? "Pow" then Ok "**"
  else if Op.class_name op =? "LShift" then Ok "<<"
  else if Op.class_name op =? "RShift" then Ok ">>"
  else if Op.class_name op =? "BitOr" then Ok "|"
  else if Op.class_name op =? "BitXor" then Ok "^"
  else if Op.class_name op =? "BitAnd" then Ok "&"
  else if Op.class_name op =? "FloorDiv" then Ok "//"
  else if Op.class_name op =? "Eq" then Ok "=="
  else if Op.class_name op =? "NotEq" then Ok "!="
  else if Op.class_name op =? "Lt" then Ok "<"
  else if Op.class_name op =? "LtE" then Ok "<="
  else if Op.class_name op =? "Gt" then Ok ">"
  else if Op.class_name op =? "GtE" then Ok ">="
  else Raised (UnsupportedOperator op).

(** ** Builtin resolver *)

Definition lookup_call_builtins (function_name : string) : string :=
  if function_name =? "print" then "Console.WriteLine"
  else if function_name =? "input" then "Console.ReadLine"
  else function_name.

(** ** Expression emitter *)

(** [str(value)] for the value of a constant. *)
Definition str_constant (value : constant) : string :=
  match value with
  | KInt z => str_int z
  | KFloat text | KComplex text | KBytes text => text
  | KStr s => s
  | KBool true => "True"
  | KBool false => "False"
  | KNone => "None"
  | KEllipsis => "Ellipsis"
  end.

Definition walk_num (n : constant) : string := str_constant n.

Definition walk_str (s : string) : string := DQUOTE ++ s ++ DQUOTE.

Definition walk_name (id : string) : string := id.

Definition walk_argument_list (argument_list : arguments) : string :=
  join ", " (map (fun argument => "dynamic " ++ arg argument) (args argument_list)).

Section ExpressionWalkers.
(** The recursive occurrence of [walk_expression] in the walkers below. *)
Variable walk_expression : node -> result string.

Definition walk_expression_list (expression_list : list node) : result string :=
  texts <- comprehension walk_expression expression_list ;;
  Ok (join ", " texts).

(** [bin_op.left], [bin_op.op] and [bin_op.right] are read in this order.  Of
    the classes of [ast] only [BinOp] and [Compare] have a [left], and only
    [BinOp] has all three. *)
Definition walk_bin_op (bin_op : node) : result string :=
  match bin_op with
  | BinOp left_ op right_ =>
      l <- walk_expression left_ ;;
      symbol <- get_bin_op_symbol op ;;
      r <- walk_expression right_ ;;
      Ok (l ++ " " ++ symbol ++ " " ++ r)
  | Compare left_ _ _ =>
      l <- walk_expression left_ ;;
      Raised (AttributeError "Compare" "op")
  | other => Raised (AttributeError (class_name other) "left")
  end.

(** The comprehension of [walk_comp_op],
    [[get_bin_op_symbol(ops[i]) + ' ' + walk_expression(comparators[i])
      for i in range(len(comparators))]],
    by recursion on [comparators], the operators from position [i] on being
    carried alongside.  [ops[i]] raises [IndexError] when [ops] is the
    shorter list. *)
Fixpoint walk_comp_items (ops : list Op.tag) (comparators : list node)
  : result (list string) :=
  match comparators with
  | [] => Ok []
  | comparator :: comparators' =>
      op <- subscript0 ops ;;
      symbol <- get_bin_op_symbol op ;;
      r <- walk_expression comparator ;;
      rest <- walk_comp_items (tl ops) comparators' ;;
      Ok ((symbol ++ " " ++ r) :: rest)
  end.

Definition walk_comp_op (left : node) (ops : list Op.tag) (comparators : list node)
  : result string :=
  l <- walk_expression left ;;
  items <- walk_comp_items ops comparators ;;
  Ok (l ++ " " ++ join " " items).

Definition walk_unary_op (op : Op.tag) (operand : node) : result string :=
  o <- walk_expression operand ;;
  Ok (Op.class_name op ++ " " ++ o).

Definition walk_lambda (args : arguments) (body : node) : result string :=
  b <- walk_expression body ;;
  Ok ("(" ++ walk_argument_list args ++ ") => " ++ b).

Definition walk_call (func : node) (args : list node) : result string :=
  f <- walk_expression func ;;
  a <- walk_expression_list args ;;
  Ok (lookup_call_builtins f ++ "(" ++ a ++ ")").
End ExpressionWalkers.

Fixpoint walk_expression (expression : node) : result string :=
  match expression with
  | BinOp _ _ _ => walk_bin_op walk_expression expression
  | BoolOp _ _ => walk_bin_op walk_expression expression
  | Compare left_ ops comparators => walk_comp_op walk_expression left_ ops comparators
  | UnaryOp op operand => walk_unary_op walk_expression op operand
  | Lambda args body => walk_lambda walk_expression args body
  | Call func args => walk_call walk_expression func args
  | Constant (KInt _ as n) | Constant (KFloat _ as n) | Constant (KComplex _ as n) =>
      Ok (walk_num n)
  | Constant (KStr s) => Ok (walk_str s)
  | Name id => Ok (walk_name id)
  | other => Raised (UnsupportedExpression (class_name other))
  end.

(** [l[i]]: the element at position [i], or [IndexError] past the end. *)
Definition subscript {A : Type} (l : list A) (i : nat) : result A :=
  match nth_error l i with
  | Some x => Ok x
  | None => Raised IndexError
  end.

(** The comprehension of [walk_comp_op] as the source writes it, over the
    positions [range(len(comparators))]. *)
Definition walk_comp_items_by_index (ops : list Op.tag) (comparators : list node)
  : result (list string) :=
  comprehension
    (fun i =>
       op <- subscript ops i ;;
       symbol <- get_bin_op_symbol op ;;
       comparator <- subscript comparators i ;;
       r <- walk_expression comparator ;;
       Ok (symbol ++ " " ++ r))
    (seq 0 (List.length comparators)).

(** ** Type inferencer *)

(** [get_expression_return_type] applied to the value of a constant, which is
    an instance of none of the node classes: [None == None] gives [dynamic], and
    any other value has no attribute [value]. *)
Definition return_type_of_value (value : constant) : result string :=
  match value with
  | KNone => Ok "dynamic"
  | other => Raised (AttributeError (constant_type_name other) "value")
  end.

Fixpoint get_expression_return_type (expression : node) : result string :=
  match expression with
  | Constant (KInt _) | Constant (KFloat _) | Constant (KComplex _) => Ok "int"
  | Constant (KStr _) => Ok "string"
  | Name _ => Ok "dynamic"
  | Call _ _ => Ok "dynamic"
  | BinOp _ _ _ => Ok "dynamic"
  | Compare _ _ _ => Ok "bool"
  | UnaryOp _ _ => Ok "dynamic"
  | Lambda _ _ => Ok "dynamic"
  | FunctionDef _ _ _ _ => Ok "dynamic"
  | NoneObj => Ok "dynamic"
  (* else: get_expression_return_type(expression.value) *)
  | Constant value => return_type_of_value value
  | Return value | Assign _ value | Expr value | AugAssign value | AnnAssign value
  | TypeAlias value
  | NamedExpr value | DictComp value | Await value | Yield value | YieldFrom value
  | FormattedValue value | Attribute value | Subscript value | Starred value =>
      get_expression_return_type value
  | other => Raised (AttributeError (class_name other) "value")
  end.

(** ** Statement emitter *)

(** An attribute read on a Python [list], which has none of the attributes the
    translator asks for. *)
Definition list_getattr (attr : string) : result (list node) :=
  Raised (AttributeError "list" attr).

(** [walk_class_def] hands [class_def.bases], a list, to this function, which
    reads [base_class_list.bases]. *)
Definition walk_base_class_list (base_class_list : list node) : result string :=
  bases <- list_getattr "bases" ;;
  walk_expression_list walk_expression bases.

Definition walk_return (value : node) : result string :=
  v <- walk_expression value ;;
  Ok ("return " ++ v ++ ";").

Definition walk_assign (targets : list node) (value : node) : result string :=
  type <- get_expression_return_type value ;;
  target <- subscript0 targets ;;
  t <- walk_expression target ;;
  v <- walk_expression value ;;
  Ok (type ++ " " ++ t ++ " = " ++ v ++ ";" ++ LF).

Section StatementWalkers.
(** The recursive occurrence of [walk_statement] in the walkers below. *)
Variable walk_statement : node -> result string.

Definition walk_statements (statements : list node) : result string :=
  texts <- comprehension walk_statement statements ;;
  Ok (join LF texts).

Definition walk_function_def (name : string) (args : arguments)
  (body : list node) (returns : node) : result string :=
  return_type <- get_expression_return_type returns ;;
  let argument_list := walk_argument_list args in
  b <- walk_statements body ;;
  Ok (return_type ++ " " ++ name ++ "(" ++ argument_list ++ ") {" ++ LF
      ++ b ++ LF ++ "}").

Definition walk_class_body (class_body : list node) : result string :=
  walk_statements class_body.

Definition walk_class_def (name : string) (bases body : list node)
  : result string :=
  base_class_list <- walk_base_class_list bases ;;
  b <- walk_class_body body ;;
  Ok ("class " ++ name ++ " : " ++ base_class_list ++ " {" ++ LF
      ++ b ++ LF ++ "}").

Definition walk_for (target iter : node) (body : list node) : result string :=
  t <- walk_expression target ;;
  i <- walk_expression iter ;;
  b <- walk_statements body ;;
  Ok ("for (" ++ t ++ " = " ++ i ++ ") {" ++ LF ++ b ++ LF ++ "}").

Definition walk_while (test : node) (body : list node) : result string :=
  t <- walk_expression test ;;
  b <- walk_statements body ;;
  Ok ("while (" ++ t ++ ") {" ++ LF ++ b ++ LF ++ "}").

Definition walk_if (test : node) (body orelse : list node) : result string :=
  if (List.length orelse =? 0)%nat then
    t <- walk_expression test ;;
    b <- walk_statements body ;;
    Ok ("if (" ++ t ++ ") {" ++ LF ++ TAB ++ b ++ "}" ++ LF)
  else
    t <- walk_expression test ;;
    b <- walk_statements body ;;
    e <- walk_statements orelse ;;
    Ok ("if (" ++ t ++ ") {" ++ LF ++ TAB ++ b ++ "}" ++ LF
        ++ "else {" ++ LF ++ TAB ++ e ++ "}" ++ LF).
End StatementWalkers.

Fixpoint walk_statement (statement : node) : result string :=
  match statement with
  | FunctionDef name args body returns =>
      walk_function_def walk_statement name args body returns
  | ClassDef name bases body => walk_class_def walk_statement name bases body
  | Return value => walk_return value
  | Assign targets value => walk_assign targets value
  | For target iter body => walk_for walk_statement target iter body
  | While test body => walk_while walk_statement test body
  | If test body orelse => walk_if walk_statement test body orelse
  | Expr value =>
      v <- walk_expression value ;;
      Ok (v ++ ";" ++ LF)
  | other => Raised (UnsupportedStatement (class_name other))
  end.

(** ** Translation driver *)

(** The loop of [walk_tree]: [csharp += walk_statement(statement)] for each
    statement of the body, [csharp] being the text accumulated so far. *)
Fixpoint walk_tree_loop (csharp : string) (body : list node) : result string :=
  match body with
  | [] => Ok csharp
  | statement :: rest =>
      text <- walk_statement statement ;;
      walk_tree_loop (csharp ++ text) rest
  end.

Definition walk_tree (tree : module_) : result string :=
  walk_tree_loop "" (module_body tree).

(** [f.write(data)] on a file whose content so far is [content]. *)
Definition write (content data : string) : string := content ++ data.

(** [emit_csharp] opens the output file for writing, which empties it, writes to
    it and closes it, also when [walk_tree] raises.  The result is the content
    the file is left with and the outcome of the call.  Failures of [open] and
    [write] themselves are not modelled. *)
Definition emit_csharp (tree : module_) : string * result unit :=
  let f := "" in
  let f := write f ("using System;" ++ LF) in
  let f := write f ("public class Program {" ++ LF ++ TAB
                    ++ "public static void Main(string[] args) {" ++ LF) in
  match walk_tree tree with
  | Ok csharp =>
      let f := write f csharp in
      let f := write f ("}" ++ LF ++ "}" ++ LF) in
      (f, Ok tt)
  | Raised e => (f, Raised e)
  end.

(** The operator table as the specification lists it, tag by tag. *)
Definition spec_operator_table : list (Op.tag * string) :=
  [ (Op.Add, "+"); (Op.Sub, "-"); (Op.Mult, "*"); (Op.Div, "/"); (Op.Mod, "%");
    (Op.Pow, "**"); (Op.FloorDiv, "//"); (Op.LShift, "<<"); (Op.RShift, ">>");
    (Op.BitOr, "|"); (Op.BitXor, "^"); (Op.BitAnd, "&"); (Op.Eq, "==");
    (Op.NotEq, "!="); (Op.Lt, "<"); (Op.LtE, "<="); (Op.Gt, ">"); (Op.GtE, ">=") ].

(** [occurs needle text]: [needle] is a substring of [text]. *)
Fixpoint occurs (needle text : string) : bool :=
  String.prefix needle text
  || match text with
     | EmptyString => false
     | String _ text' => occurs needle text'
     end.

(** The concatenation of a list of texts, in order. *)
Definition concat_texts (texts : list string) : string :=
  fold_right String.append "" texts.

(** The tags of the operator table. *)
Definition op_in_table (op : Op.tag) : bool :=
  existsb (fun entry => if Op.eq_dec op (fst entry) then true else false)
          spec_operator_table.





(** Trees the translator renders: every node is of a class the dispatchers
    name, other than [BoolOp] and [ClassDef]; every operator of a binary
    operation or comparison is in the operator table; a comparison has an
    operator for each comparator; an assignment has a target; a [return] has a
    value; the return annotation of a function is absent or an expression of
    this kind. *)
Section Supported.
Variable supported : node -> bool.

Fixpoint supported_comparisons (ops : list Op.tag) (comparators : list node)
  : bool :=
  match comparators with
  | [] => true
  | comparator :: comparators' =>
      match ops with [] => false | op :: _ => op_in_table op end
      && supported comparator
      && supported_comparisons (tl ops) comparators'
  end.
End Supported.

Fixpoint supported_expression (x : node) : bool :=
  match x with
  | BinOp left_ op right_ =>
      supported_expression left_ && op_in_table op && supported_expression right_
  | Compare left_ ops comparators =>
      supported_expression left_
      && supported_comparisons supported_expression ops comparators
  | UnaryOp _ operand => supported_expression operand
  | Lambda _ body => supported_expression body
  | Call func a => supported_expression func && forallb supported_expression a
  | Constant (KInt _) | Constant (KFloat _) | Constant (KComplex _)
  | Constant (KStr _) => true
  | Name _ => true
  | _ => false
  end.


(** The nodes a node holds. *)
Definition children (x : node) : list node :=
  match x with
  | FunctionDef _ _ body returns => returns :: body
  | ClassDef _ bases body => (bases ++ body)%list
  | Assign targets value => value :: targets
  | For target iter body => target :: iter :: body
  | While test body => test :: body
  | If test body orelse => test :: (body ++ orelse)%list
  | BinOp left_ _ right_ => [left_; right_]
  | BoolOp _ values => values
  | Compare left_ _ comparators => left_ :: comparators
  | Lambda _ body => [body]
  | Call func a => func :: a
  | UnaryOp _ value
  | Return value | Expr value | AugAssign value | AnnAssign value | TypeAlias value
  | NamedExpr value | DictComp value | Await value | Yield value | YieldFrom value
  | FormattedValue value | Attribute value | Subscript value | Starred value =>
      [value]
  | _ => []
  end.

(** The objects for which [get_expression_return_type] returns a label: the
    classes it names, [None], and the nodes that reach one of these along their
    [value] attributes. *)
Fixpoint has_return_type (x : node) : bool :=
  match x with
  | Constant (KInt _) | Constant (KFloat _) | Constant (KComplex _)
  | Constant (KStr _) | Constant KNone => true
  | Name _ | Call _ _ | BinOp _ _ _ | Compare _ _ _ | UnaryOp _ _ | Lambda _ _
  | FunctionDef _ _ _ _ | NoneObj => true
  | Return value | Assign _ value | Expr value | AugAssign value | AnnAssign value
  | TypeAlias value
  | NamedExpr value | DictComp value | Await value | Yield value | YieldFrom value
  | FormattedValue value | Attribute value | Subscript value | Starred value =>
      has_return_type value
  | _ => false
  end.


(** The four type labels. *)
Definition type_labels : list string := ["int"; "string"; "bool"; "dynamic"].



(** [has_line_feed text]: a line feed occurs in [text]. *)
Fixpoint has_line_feed (text : string) : bool :=
  match text with
  | EmptyString => false
  | String c text' => Ascii.eqb c "010" || has_line_feed text'
  end.

(** The names, parameter names and literal texts of an expression hold no line
    feed. *)
Fixpoint names_on_one_line (x : node) : bool :=
  match x with
  | BinOp left_ _ right_ => names_on_one_line left_ && names_on_one_line right_
  | Compare left_ _ comparators =>
      names_on_one_line left_ && forallb names_on_one_line comparators
  | UnaryOp _ operand => names_on_one_line operand
  | Lambda a body =>
      forallb (fun argument => negb (has_line_feed (arg argument))) (args a)
      && names_on_one_line body
  | Call func a => names_on_one_line func && forallb names_on_one_line a
  | Constant (KFloat text) | Constant (KComplex text) | Constant (KStr text) =>
      negb (has_line_feed text)
  | Name id => negb (has_line_feed id)
  | _ => true
  end.


(** [ends_with_line_feed text]: the last character of [text] is a line feed. *)
Fixpoint ends_with_line_feed (text : string) : bool :=
  match text with
  | EmptyString => false
  | String c EmptyString => Ascii.eqb c "010"
  | String _ text' => ends_with_line_feed text'
  end.

(** The statement classes whose text ends with a line feed. *)
Definition ends_its_line (x : node) : bool :=
  match x with
  | Assign _ _ | If _ _ _ | Expr _ => true
  | _ => false
  end.

(** * Properties *)

(** ** Text and result lemmas *)

Lemma append_assoc (a b c : string) : (a ++ b) ++ c = a ++ (b ++ c).
Proof.
  induction a as [|ch a IH]; simpl.
  - reflexivity.
  - now rewrite IH.
Qed.

Lemma append_empty_r (a : string) : a ++ "" = a.
Proof.
  induction a as [|ch a IH]; simpl; [reflexivity | now rewrite IH].
Qed.


(** Inverts a hypothesis [bind m k = Ok b], naming the value of [m]. *)
Ltac bind_inversion H :=
  repeat match type of H with
    | bind ?m _ = Ok _ =>
        let E := fresh "E" in
        destruct m eqn:E;
        [unfold bind at 1 in H; cbv beta iota in H | discriminate H]
    end.

(** ** Induction on trees *)

(** A property that holds of a node whenever it holds of the nodes it holds,
    holds of every node. *)
Lemma node_children_ind (P : node -> Prop) :
  (forall x, Forall P (children x) -> P x) -> forall x, P x.
Proof.
  intros step. fix IH 1. intros x. apply step.
  destruct x; simpl;
    repeat match goal with
      | |- Forall _ [] => constructor
      | |- Forall _ (_ :: _) => constructor; [apply IH |]
      | |- Forall _ (_ ++ _)%list => apply Forall_app; split
      | |- Forall _ ?l => is_var l; induction l; constructor; [apply IH | assumption]
      end.
Qed.

(** ** Unfolding equations of the two dispatchers *)

Lemma walk_expression_BinOp left_ op right_ :
  walk_expression (BinOp left_ op right_)
  = walk_bin_op walk_expression (BinOp left_ op right_).
Proof. reflexivity. Qed.

Lemma walk_expression_BoolOp op values :
  walk_expression (BoolOp op values) = walk_bin_op walk_expression (BoolOp op values).
Proof. reflexivity. Qed.

Lemma walk_expression_Compare left_ ops comparators :
  walk_expression (Compare left_ ops comparators)
  = walk_comp_op walk_expression left_ ops comparators.
Proof. reflexivity. Qed.

Lemma walk_expression_UnaryOp op operand :
  walk_expression (UnaryOp op operand) = walk_unary_op walk_expression op operand.
Proof. reflexivity. Qed.

Lemma walk_expression_Lambda a body :
  walk_expression (Lambda a body) = walk_lambda walk_expression a body.
Proof. reflexivity. Qed.

Lemma walk_expression_Call func a :
  walk_expression (Call func a) = walk_call walk_expression func a.
Proof. reflexivity. Qed.

Lemma walk_statement_FunctionDef name a body returns :
  walk_statement (FunctionDef name a body returns)
  = walk_function_def walk_statement name a body returns.
Proof. reflexivity. Qed.

Lemma walk_statement_ClassDef name bases body :
  walk_statement (ClassDef name bases body)
  = walk_class_def walk_statement name bases body.
Proof. reflexivity. Qed.

Lemma walk_statement_For target iter body :
  walk_statement (For target iter body) = walk_for walk_statement target iter body.
Proof. reflexivity. Qed.

Lemma walk_statement_While test body :
  walk_statement (While test body) = walk_while walk_statement test body.
Proof. reflexivity. Qed.

Lemma walk_statement_Expr value :
  walk_statement (Expr value)
  = (v <- walk_expression value ;; Ok (v ++ ";" ++ LF)).
Proof. reflexivity. Qed.

Lemma walk_statement_If test body orelse :
  walk_statement (If test body orelse) = walk_if walk_statement test body orelse.
Proof. reflexivity. Qed.

Lemma walk_statement_Assign targets value :
  walk_statement (Assign targets value) = walk_assign targets value.
Proof. reflexivity. Qed.

(** ** The emitters on small programs *)

Example str_int_examples :
  str_int 0 = "0" /\ str_int 1 = "1" /\ str_int 1024 = "1024" /\ str_int (-7) = "-7".
Proof. repeat split. Qed.

(** [print(x)] *)
Example walk_print_call :
  walk_statement (Expr (Call (Name "print") [Name "x"]))
  = Ok ("Console.WriteLine(x);" ++ LF).
Proof. reflexivity. Qed.

(** [name = "hi"] *)
Example walk_string_assignment :
  walk_statement (Assign [Name "name"] (Constant (KStr "hi")))
  = Ok ("string name = " ++ DQUOTE ++ "hi" ++ DQUOTE ++ ";" ++ LF).
Proof. reflexivity. Qed.

(** [def f(a, b): return 1], without a return annotation *)
Example walk_function_without_annotation :
  walk_statement
    (FunctionDef "f" (mk_arguments [mk_arg "a"; mk_arg "b"])
       [Return (Constant (KInt 1))] NoneObj)
  = Ok ("dynamic f(dynamic a, dynamic b) {" ++ LF ++ "return 1;" ++ LF ++ "}").
Proof. reflexivity. Qed.

(** [a < b < c] *)
Example walk_chained_comparison :
  walk_expression (Compare (Name "a") [Op.Lt; Op.Lt] [Name "b"; Name "c"])
  = Ok "a < b < c".
Proof. reflexivity. Qed.

(** [a and b] *)
Example walk_and :
  walk_expression (BoolOp Op.And [Name "a"; Name "b"])
  = Raised (AttributeError "BoolOp" "left").
Proof. reflexivity. Qed.

(** A bare [return] *)
Example walk_bare_return :
  walk_statement (Return NoneObj) = Raised (UnsupportedExpression "NoneType").
Proof. reflexivity. Qed.

(** ** The comparison items, by position and by recursion *)

Lemma comprehension_ext {A B : Type} (f g : A -> result B) (l : list A) :
  (forall x, List.In x l -> f x = g x) -> comprehension f l = comprehension g l.
Proof.
  induction l as [|x l IH]; simpl; intros H; [reflexivity |].
  rewrite (H x (or_introl eq_refl)). rewrite IH; [reflexivity |].
  intros y Hy. apply H. now right.
Qed.

Lemma comprehension_map {A B C : Type} (f : B -> result C) (h : A -> B)
  (l : list A) :
  comprehension f (map h l) = comprehension (fun x => f (h x)) l.
Proof.
  induction l as [|x l IH]; simpl; [reflexivity | now rewrite IH].
Qed.

(** The recursion [walk_comp_items] computes the comprehension over positions
    that [walk_comp_op] writes. *)
Lemma walk_comp_items_by_index_eq (comparators : list node) :
  forall ops,
    walk_comp_items walk_expression ops comparators
    = walk_comp_items_by_index ops comparators.
Proof.
  unfold walk_comp_items_by_index.
  induction comparators as [|c cs IH]; intros ops; [reflexivity |].
  simpl List.length. rewrite <- cons_seq, <- seq_shift.
  cbn [comprehension]. rewrite comprehension_map.
  destruct ops as [|op ops']; [reflexivity |].
  cbn [walk_comp_items tl]. rewrite IH.
  destruct (get_bin_op_symbol op) as [symbol |] eqn:Es;
    [| unfold subscript0, subscript; simpl; now rewrite Es].
  destruct (walk_expression c) as [r |] eqn:Er;
    unfold subscript0, subscript; simpl; rewrite Es; simpl; rewrite Er;
    reflexivity.
Qed.

(** ** C1: Boolean operations *)

(** C1.  The dispatcher sends a [BoolOp] node to [walk_bin_op], which reads
    [bin_op.left]; a [BoolOp] node has the attributes [op] and [values] only, so
    the emitter raises [AttributeError] on every [BoolOp], whatever its operator
    and operands: no text of the form left, symbol, right is ever returned. *)
Theorem C1_bool_op_raises (op : Op.tag) (values : list node) :
  walk_expression (BoolOp op values) = Raised (AttributeError "BoolOp" "left").
Proof. rewrite walk_expression_BoolOp. reflexivity. Qed.

(** The tags of a [BoolOp] are not in the operator table either. *)
Lemma bool_op_tags_not_in_table :
  get_bin_op_symbol Op.And = Raised (UnsupportedOperator Op.And)
  /\ get_bin_op_symbol Op.Or = Raised (UnsupportedOperator Op.Or).
Proof. split; reflexivity. Qed.

(** ** C3: the operator table *)

Lemma get_bin_op_symbol_table (op : Op.tag) (symbol : string) :
  get_bin_op_symbol op = Ok symbol <-> List.In (op, symbol) spec_operator_table.
Proof.
  split.
  - destruct op; cbv [get_bin_op_symbol Op.class_name]; simpl;
      intros H; inversion H; subst; simpl; tauto.
  - simpl. intros H.
    repeat (destruct H as [H | H]; [inversion H; subst; reflexivity |]).
    contradiction.
Qed.

Lemma get_bin_op_symbol_outside (op : Op.tag) :
  ~ List.In op (map fst spec_operator_table) ->
  get_bin_op_symbol op = Raised (UnsupportedOperator op).
Proof.
  intros H. destruct op; try reflexivity; exfalso; apply H; simpl; tauto.
Qed.

(** C3.  [get_bin_op_symbol] returns a symbol exactly for the eighteen tags of
    the operator table, and then the symbol the table lists (with [**] for [Pow]
    and [//] for [FloorDiv]); for every other tag it raises the
    unsupported-operator exception. *)
Theorem C3_operator_table :
  List.length spec_operator_table = 18%nat
  /\ NoDup (map fst spec_operator_table)
  /\ (forall op symbol,
        get_bin_op_symbol op = Ok symbol <-> List.In (op, symbol) spec_operator_table)
  /\ (forall op,
        ~ List.In op (map fst spec_operator_table) ->
        get_bin_op_symbol op = Raised (UnsupportedOperator op)).
Proof.
  split; [reflexivity |].
  split.
  - simpl. repeat (constructor; [simpl; intuition discriminate |]). constructor.
  - split; [exact get_bin_op_symbol_table | exact get_bin_op_symbol_outside].
Qed.

Lemma C3_operator_table_witness :
  get_bin_op_symbol Op.Pow = Ok "**"
  /\ get_bin_op_symbol Op.FloorDiv = Ok "//"
  /\ get_bin_op_symbol Op.MatMult = Raised (UnsupportedOperator Op.MatMult).
Proof.
  destruct C3_operator_table as [_ [_ [Hin Hout]]].
  split; [| split].
  - apply Hin. simpl. tauto.
  - apply Hin. simpl. tauto.
  - apply Hout. simpl. intuition discriminate.
Defined.

(** ** C4: the type inferencer *)

(** C4.  The label [get_expression_return_type] gives depends on the class of
    its argument only: [int] for every numeric literal, [string] for every
    string literal, [bool] for every comparison, [dynamic] for every name, call,
    binary operation, unary operation, lambda and function definition, and
    [dynamic] for [None], the absent expression. *)
Theorem C4_type_inference :
  (forall n, is_Num n = true -> get_expression_return_type n = Ok "int")
  /\ (forall s, is_Str s = true -> get_expression_return_type s = Ok "string")
  /\ (forall left_ ops comparators,
        get_expression_return_type (Compare left_ ops comparators) = Ok "bool")
  /\ (forall id, get_expression_return_type (Name id) = Ok "dynamic")
  /\ (forall func a, get_expression_return_type (Call func a) = Ok "dynamic")
  /\ (forall left_ op right_,
        get_expression_return_type (BinOp left_ op right_) = Ok "dynamic")
  /\ (forall op operand,
        get_expression_return_type (UnaryOp op operand) = Ok "dynamic")
  /\ (forall a body, get_expression_return_type (Lambda a body) = Ok "dynamic")
  /\ (forall name a body returns,
        get_expression_return_type (FunctionDef name a body returns) = Ok "dynamic")
  /\ get_expression_return_type NoneObj = Ok "dynamic".
Proof.
  repeat split; try reflexivity.
  - intros n H. destruct n; try discriminate H.
    destruct value; try discriminate H; reflexivity.
  - intros n H. destruct n; try discriminate H.
    destruct value; try discriminate H; reflexivity.
Qed.

Lemma C4_type_inference_witness :
  get_expression_return_type (Constant (KInt 5)) = Ok "int"
  /\ get_expression_return_type (Constant (KStr "x")) = Ok "string".
Proof.
  destruct C4_type_inference as [Hnum [Hstr _]].
  split; [apply Hnum | apply Hstr]; reflexivity.
Defined.

(** ** C5: the builtin resolver *)

Lemma lookup_call_builtins_other (x : string) :
  x <> "print" -> x <> "input" -> lookup_call_builtins x = x.
Proof.
  intros Hp Hi. unfold lookup_call_builtins.
  apply String.eqb_neq in Hp. apply String.eqb_neq in Hi.
  now rewrite Hp, Hi.
Qed.

Lemma lookup_call_builtins_idempotent (x : string) :
  lookup_call_builtins (lookup_call_builtins x) = lookup_call_builtins x.
Proof.
  destruct (String.eqb_spec x "print") as [-> | Hp]; [reflexivity |].
  destruct (String.eqb_spec x "input") as [-> | Hi]; [reflexivity |].
  now rewrite !(lookup_call_builtins_other x Hp Hi).
Qed.

(** C5.  [lookup_call_builtins] is a function from text to text (it never
    raises): [print] becomes [Console.WriteLine], [input] becomes
    [Console.ReadLine], every other identifier is returned unchanged, and
    resolving twice is the same as resolving once. *)
Theorem C5_builtin_resolution :
  lookup_call_builtins "print" = "Console.WriteLine"
  /\ lookup_call_builtins "input" = "Console.ReadLine"
  /\ (forall x, x <> "print" -> x <> "input" -> lookup_call_builtins x = x)
  /\ (forall x, lookup_call_builtins (lookup_call_builtins x) = lookup_call_builtins x).
Proof.
  split; [reflexivity |]. split; [reflexivity |].
  split; [exact lookup_call_builtins_other | exact lookup_call_builtins_idempotent].
Qed.

Lemma C5_builtin_resolution_witness :
  lookup_call_builtins "len" = "len"
  /\ lookup_call_builtins (lookup_call_builtins "print") = lookup_call_builtins "print".
Proof.
  destruct C5_builtin_resolution as [_ [_ [Hother Hidem]]].
  split; [apply Hother; discriminate | apply Hidem].
Defined.

(** ** C8: unary operations *)

(** C8.  A [UnaryOp] node is rendered as the class name of its operator tag, one
    space and the rendering of its operand; the operator table is not consulted.
    An exception raised for the operand is the exception of the node. *)
Theorem C8_unary_op_tag_name (op : Op.tag) (operand : node) :
  (forall text,
      walk_expression operand = Ok text ->
      walk_expression (UnaryOp op operand) = Ok (Op.class_name op ++ " " ++ text))
  /\ (forall e,
        walk_expression operand = Raised e ->
        walk_expression (UnaryOp op operand) = Raised e).
Proof.
  rewrite walk_expression_UnaryOp. unfold walk_unary_op.
  split; intros x H; rewrite H; reflexivity.
Qed.

Lemma C8_unary_op_tag_name_witness :
  walk_expression (UnaryOp Op.USub (Name "a")) = Ok "USub a"
  /\ walk_expression (UnaryOp Op.Not ListDisplay)
     = Raised (UnsupportedExpression "List").
Proof.
  split.
  - apply (proj1 (C8_unary_op_tag_name Op.USub (Name "a")) "a"). reflexivity.
  - apply (proj2 (C8_unary_op_tag_name Op.Not ListDisplay)). reflexivity.
Defined.

(** ** C10: a comparison without comparators *)

(** C10.  A [Compare] node whose list of comparators is empty is rendered as the
    rendering of its left operand followed by exactly one space (the join of no
    items is the empty text), whatever its list of operators holds. *)
Theorem C10_compare_no_comparators (left_ : node) (ops : list Op.tag) (text : string) :
  walk_expression left_ = Ok text ->
  walk_expression (Compare left_ ops []) = Ok (text ++ " ").
Proof.
  intros H. rewrite walk_expression_Compare. unfold walk_comp_op.
  rewrite H. reflexivity.
Qed.

Lemma C10_compare_no_comparators_witness :
  walk_expression (Compare (Name "a") [] []) = Ok "a ".
Proof.
  apply (C10_compare_no_comparators (Name "a") [] "a"). reflexivity.
Defined.

(** ** C6: assignments *)

(** C6.  An [Assign] node is rendered as the inferred type of its value, a
    space, the rendering of its first target, [ = ], the rendering of its value
    and a semicolon followed by a line feed; the targets after the first do not
    appear in the text.  In particular [x = 1] gives [int x = 1;] and a line
    feed. *)
Theorem C6_assignment (target : node) (rest : list node) (value : node)
  (type t v : string) :
  get_expression_return_type value = Ok type ->
  walk_expression target = Ok t ->
  walk_expression value = Ok v ->
  walk_statement (Assign (target :: rest) value)
  = Ok (type ++ " " ++ t ++ " = " ++ v ++ ";" ++ LF).
Proof.
  intros Htype Ht Hv. rewrite walk_statement_Assign. unfold walk_assign.
  rewrite Htype. simpl. rewrite Ht. simpl. rewrite Hv. reflexivity.
Qed.

Lemma C6_assignment_witness :
  walk_statement (Assign [Name "x"] (Constant (KInt 1))) = Ok ("int x = 1;" ++ LF)
  /\ walk_statement (Assign [Name "a"; Name "b"] (Constant (KInt 1)))
     = Ok ("int a = 1;" ++ LF).
Proof.
  split.
  - apply (C6_assignment (Name "x") [] (Constant (KInt 1)) "int" "x" "1");
      reflexivity.
  - apply (C6_assignment (Name "a") [Name "b"] (Constant (KInt 1)) "int" "a" "1");
      reflexivity.
Defined.

(** The text for [x = 1] is not [int x = 1;]: a line feed follows the
    semicolon. *)
Lemma C6_assignment_counterexample :
  walk_statement (Assign [Name "x"] (Constant (KInt 1))) <> Ok "int x = 1;".
Proof. vm_compute. discriminate. Qed.

(** ** C7: conditionals *)

(** C7.  An [If] node is rendered as [if (], the test, [) {], a line feed, a
    tab, the block of its body, [}] and a line feed; the text [else {], line
    feed, tab, the block of [orelse], [}], line feed is appended when [orelse]
    holds a statement, and nothing is appended when it holds none.  In particular
    [if (a < b): return a] without an else gives [if (a < b) {], line feed, tab,
    [return a;}], line feed. *)
Theorem C7_conditional (test : node) (body orelse : list node) (t b : string) :
  walk_expression test = Ok t ->
  walk_statements walk_statement body = Ok b ->
  (orelse = [] ->
   walk_statement (If test body orelse)
   = Ok ("if (" ++ t ++ ") {" ++ LF ++ TAB ++ b ++ "}" ++ LF))
  /\ (forall e,
        orelse <> [] ->
        walk_statements walk_statement orelse = Ok e ->
        walk_statement (If test body orelse)
        = Ok ("if (" ++ t ++ ") {" ++ LF ++ TAB ++ b ++ "}" ++ LF
              ++ "else {" ++ LF ++ TAB ++ e ++ "}" ++ LF)).
Proof.
  intros Ht Hb. rewrite walk_statement_If. unfold walk_if. split.
  - intros ->. simpl. rewrite Ht. simpl. rewrite Hb. reflexivity.
  - intros e Hne He. destruct orelse as [|s orelse']; [contradiction |].
    change ((List.length (s :: orelse') =? 0)%nat) with false.
    cbv iota. rewrite Ht. simpl bind. rewrite Hb. simpl bind. rewrite He.
    reflexivity.
Qed.

Lemma C7_conditional_witness :
  walk_statement
    (If (Compare (Name "a") [Op.Lt] [Name "b"]) [Return (Name "a")] [])
  = Ok ("if (a < b) {" ++ LF ++ TAB ++ "return a;}" ++ LF)
  /\ walk_statement
       (If (Compare (Name "a") [Op.Lt] [Name "b"]) [Return (Name "a")]
           [Return (Name "b")])
     = Ok ("if (a < b) {" ++ LF ++ TAB ++ "return a;}" ++ LF
           ++ "else {" ++ LF ++ TAB ++ "return b;}" ++ LF).
Proof.
  split.
  - apply (proj1 (C7_conditional (Compare (Name "a") [Op.Lt] [Name "b"])
                    [Return (Name "a")] [] "a < b" "return a;"
                    eq_refl eq_refl)).
    reflexivity.
  - apply (proj2 (C7_conditional (Compare (Name "a") [Op.Lt] [Name "b"])
                    [Return (Name "a")] [Return (Name "b")] "a < b" "return a;"
                    eq_refl eq_refl) "return b;").
    + discriminate.
    + reflexivity.
Defined.

(** ** C9: the translation driver *)

Lemma walk_tree_loop_concat (body : list node) (texts : list string) :
  Forall2 (fun statement text => walk_statement statement = Ok text) body texts ->
  forall csharp,
    walk_tree_loop csharp body = Ok (csharp ++ concat_texts texts).
Proof.
  induction 1 as [|statement text body texts Hs _ IH]; intros csharp; simpl.
  - now rewrite append_empty_r.
  - rewrite Hs. simpl. rewrite IH. now rewrite append_assoc.
Qed.

Lemma walk_tree_loop_raised (body : list node) (done : list string)
  (statement : node) (rest : list node) (e : exn) :
  Forall2 (fun s text => walk_statement s = Ok text) body done ->
  walk_statement statement = Raised e ->
  forall csharp, walk_tree_loop csharp (body ++ statement :: rest)%list = Raised e.
Proof.
  induction 1 as [|s text body done Hs _ IH]; intros He csharp; simpl.
  - now rewrite He.
  - rewrite Hs. simpl. now apply IH.
Qed.

(** C9.  When every top-level statement is emitted, the file holds
    [using System;], the opening of a public class [Program] (which is not
    declared static) and of its one public static [Main] method, the texts of
    the top-level statements in their order with nothing between them, and the
    two closing braces; no other import and no namespace is written.  When a
    top-level statement raises, the call raises the same exception and the file
    is left with the prologue only. *)
Theorem C9_translation_driver (body : list node) :
  (forall texts,
      Forall2 (fun statement text => walk_statement statement = Ok text) body texts ->
      emit_csharp (mk_module body)
      = ("using System;" ++ LF
         ++ "public class Program {" ++ LF
         ++ TAB ++ "public static void Main(string[] args) {" ++ LF
         ++ concat_texts texts
         ++ "}" ++ LF ++ "}" ++ LF,
         Ok tt))
  /\ (forall done statement rest e,
        body = (done ++ statement :: rest)%list ->
        (forall s, List.In s done -> exists text, walk_statement s = Ok text) ->
        walk_statement statement = Raised e ->
        emit_csharp (mk_module body)
        = ("using System;" ++ LF
           ++ "public class Program {" ++ LF
           ++ TAB ++ "public static void Main(string[] args) {" ++ LF,
           Raised e)).
Proof.
  split.
  - intros texts H. unfold emit_csharp, walk_tree. simpl module_body.
    rewrite (walk_tree_loop_concat body texts H ""). unfold write.
    reflexivity.
  - intros done statement rest e -> Hdone He.
    assert (Hall : exists texts,
               Forall2 (fun s text => walk_statement s = Ok text) done texts).
    { clear He. induction done as [|s done IH].
      - exists []. constructor.
      - destruct (Hdone s (or_introl eq_refl)) as [text Hs].
        destruct IH as [texts Htexts].
        + intros s' Hin. apply Hdone. now right.
        + exists (text :: texts). now constructor. }
    destruct Hall as [texts Htexts].
    unfold emit_csharp, walk_tree. simpl module_body.
    rewrite (walk_tree_loop_raised done texts statement rest e Htexts He "").
    reflexivity.
Qed.

Lemma C9_translation_driver_witness :
  emit_csharp
    (mk_module [Assign [Name "x"] (Constant (KInt 1));
                Expr (Call (Name "print") [Name "x"])])
  = ("using System;" ++ LF
     ++ "public class Program {" ++ LF
     ++ TAB ++ "public static void Main(string[] args) {" ++ LF
     ++ "int x = 1;" ++ LF
     ++ "Console.WriteLine(x);" ++ LF
     ++ "}" ++ LF ++ "}" ++ LF,
     Ok tt)
  /\ emit_csharp (mk_module [Assign [Name "x"] (Constant (KInt 1)); Try])
     = ("using System;" ++ LF
        ++ "public class Program {" ++ LF
        ++ TAB ++ "public static void Main(string[] args) {" ++ LF,
        Raised (UnsupportedStatement "Try")).
Proof.
  split.
  - apply (proj1 (C9_translation_driver _)
             ["int x = 1;" ++ LF; "Console.WriteLine(x);" ++ LF]).
    repeat constructor.
  - apply (proj2 (C9_translation_driver _)
             [Assign [Name "x"] (Constant (KInt 1))] Try []).
    + reflexivity.
    + intros s [<- | []]. eexists. reflexivity.
    + reflexivity.
Defined.

(** The class the driver writes is not declared static: the text written for
    the empty module holds [public class Program] and nowhere [static class]. *)
Lemma C9_translation_driver_counterexample :
  occurs "public class Program {" (fst (emit_csharp (mk_module []))) = true
  /\ occurs "static class" (fst (emit_csharp (mk_module []))) = false.
Proof. split; vm_compute; reflexivity. Qed.

(** ** C2: the kinds the emitters accept *)











(** A class definition never returns text: [walk_base_class_list] reads the
    attribute [bases] of the list it is given. *)
Lemma walk_statement_ClassDef_raises name bases body :
  walk_statement (ClassDef name bases body) = Raised (AttributeError "list" "bases").
Proof. reflexivity. Qed.




(** * Further properties of the walkers *)

(** ** Results and comprehensions *)

Lemma bind_Ok_inv {A B : Type} (m : result A) (k : A -> result B) (b : B) :
  bind m k = Ok b -> exists a, m = Ok a /\ k a = Ok b.
Proof. destruct m as [a | e]; simpl; [eauto | discriminate]. Qed.

Lemma bind_Ok_eq {A B : Type} (m : result A) (k : A -> result B) (a : A) :
  m = Ok a -> bind m k = k a.
Proof. intros ->. reflexivity. Qed.


Lemma comprehension_Ok_iff {A B : Type} (f : A -> result B) (l : list A)
  (ys : list B) :
  comprehension f l = Ok ys <-> Forall2 (fun x y => f x = Ok y) l ys.
Proof.
  revert ys. induction l as [|x l IH]; intros ys; simpl.
  - split.
    + intros [= <-]. constructor.
    + intros H. inversion H. reflexivity.
  - split.
    + intros H. apply bind_Ok_inv in H as [y [Hy H]].
      apply bind_Ok_inv in H as [ys' [Hys [= <-]]].
      constructor; [assumption | now apply IH].
    + intros H. inversion H as [|? y ? ys' Hy Hys]; subst.
      rewrite Hy. simpl. apply IH in Hys. now rewrite Hys.
Qed.


Lemma comprehension_first_failure {A B : Type} (f : A -> result B)
  (done : list A) (ys : list B) (x : A) (rest : list A) (e : exn) :
  Forall2 (fun a y => f a = Ok y) done ys ->
  f x = Raised e ->
  comprehension f (done ++ x :: rest)%list = Raised e.
Proof.
  induction 1 as [|a y done ys Ha _ IH]; intros Hx; simpl.
  - now rewrite Hx.
  - rewrite Ha. simpl. now rewrite IH.
Qed.

Lemma comprehension_app {A B : Type} (f : A -> result B) (l1 l2 : list A)
  (ys1 ys2 : list B) :
  comprehension f l1 = Ok ys1 ->
  comprehension f l2 = Ok ys2 ->
  comprehension f (l1 ++ l2)%list = Ok (ys1 ++ ys2)%list.
Proof.
  rewrite !comprehension_Ok_iff. apply Forall2_app.
Qed.

Lemma Forall2_In_l {A B : Type} (R : A -> B -> Prop) (l : list A) (ys : list B)
  (x : A) :
  Forall2 R l ys -> List.In x l -> exists y, R x y.
Proof.
  induction 1 as [|a y l ys Ha _ IH]; simpl; [contradiction |].
  intros [<- | Hin]; eauto.
Qed.

Lemma Forall2_Forall_r {A B : Type} (R : A -> B -> Prop) (Q : B -> Prop)
  (l : list A) (ys : list B) :
  Forall2 R l ys ->
  (forall x y, List.In x l -> R x y -> Q y) ->
  Forall Q ys.
Proof.
  induction 1 as [|a y l ys Ha _ IH]; intros H; constructor.
  - apply (H a y); [now left | assumption].
  - apply IH. intros x' y' Hin. apply H. now right.
Qed.

Lemma join_cons (sep x y : string) (l : list string) :
  join sep (x :: y :: l) = x ++ sep ++ join sep (y :: l).
Proof. reflexivity. Qed.

Lemma join_app (sep : string) (l1 l2 : list string) :
  l1 <> [] -> l2 <> [] ->
  join sep (l1 ++ l2)%list = join sep l1 ++ sep ++ join sep l2.
Proof.
  intros H1 H2. induction l1 as [|x l1 IH]; [contradiction |].
  destruct l1 as [|y l1].
  - destruct l2 as [|z l2]; [contradiction | reflexivity].
  - change (((x :: y :: l1) ++ l2)%list) with (x :: y :: (l1 ++ l2)%list).
    rewrite !join_cons.
    change (y :: (l1 ++ l2)%list) with (((y :: l1) ++ l2)%list).
    rewrite IH by discriminate. now rewrite !append_assoc.
Qed.

(** ** The expressions the emitter renders, and the exceptions it raises *)

Lemma symbol_op_in_table (op : Op.tag) (symbol : string) :
  get_bin_op_symbol op = Ok symbol -> op_in_table op = true.
Proof. destruct op; vm_compute; intros H; (reflexivity || discriminate H). Qed.


Lemma walk_comp_items_Ok_supported (comparators : list node) :
  Forall (fun x => forall text, walk_expression x = Ok text ->
                   supported_expression x = true) comparators ->
  forall ops items,
    walk_comp_items walk_expression ops comparators = Ok items ->
    supported_comparisons supported_expression ops comparators = true.
Proof.
  induction 1 as [|c cs Hc _ IH]; intros ops items H; [reflexivity |].
  simpl in H.
  apply bind_Ok_inv in H as [op [Hop H]].
  apply bind_Ok_inv in H as [symbol [Hsymbol H]].
  apply bind_Ok_inv in H as [r [Hr H]].
  apply bind_Ok_inv in H as [rest [Hrest _]].
  destruct ops as [|op' ops']; [discriminate Hop |].
  injection Hop as ->. simpl in Hrest. simpl.
  rewrite (symbol_op_in_table _ _ Hsymbol), (Hc _ Hr), (IH _ _ Hrest).
  reflexivity.
Qed.

Lemma walk_expression_Ok_supported (x : node) :
  forall text, walk_expression x = Ok text -> supported_expression x = true.
Proof.
  induction x as [x IH] using node_children_ind.
  destruct x; try discriminate; simpl in IH; intros text H.
  - (* BinOp *)
    rewrite walk_expression_BinOp in H. unfold walk_bin_op in H.
    apply bind_Ok_inv in H as [l [Hl H]].
    apply bind_Ok_inv in H as [symbol [Hsymbol H]].
    apply bind_Ok_inv in H as [r [Hr _]].
    inversion IH as [|? ? IHl IH']; subst. inversion IH' as [|? ? IHr _]; subst.
    simpl. rewrite (IHl _ Hl), (IHr _ Hr), (symbol_op_in_table _ _ Hsymbol).
    reflexivity.
  - (* Compare *)
    rewrite walk_expression_Compare in H. unfold walk_comp_op in H.
    apply bind_Ok_inv in H as [l [Hl H]].
    apply bind_Ok_inv in H as [items [Hitems _]].
    inversion IH as [|? ? IHl IHcs]; subst.
    simpl. rewrite (IHl _ Hl).
    now rewrite (walk_comp_items_Ok_supported _ IHcs _ _ Hitems).
  - (* UnaryOp *)
    rewrite walk_expression_UnaryOp in H. unfold walk_unary_op in H.
    apply bind_Ok_inv in H as [o [Ho _]].
    inversion IH as [|? ? IHo _]; subst. simpl. now apply (IHo o).
  - (* Lambda *)
    rewrite walk_expression_Lambda in H. unfold walk_lambda in H.
    apply bind_Ok_inv in H as [b [Hb _]].
    inversion IH as [|? ? IHb _]; subst. simpl. now apply (IHb b).
  - (* Call *)
    rewrite walk_expression_Call in H. unfold walk_call, walk_expression_list in H.
    apply bind_Ok_inv in H as [f [Hf H]].
    apply bind_Ok_inv in H as [a [Ha _]].
    apply bind_Ok_inv in Ha as [texts [Htexts _]].
    inversion IH as [|? ? IHf IHa]; subst.
    simpl. rewrite (IHf _ Hf). simpl.
    apply comprehension_Ok_iff in Htexts.
    apply forallb_forall. intros y Hy.
    rewrite Forall_forall in IHa.
    destruct (Forall2_In_l _ _ _ _ Htexts Hy) as [t Ht].
    now apply (IHa y Hy t).
  - (* Constant *)
    destruct value; try discriminate H; reflexivity.
  - (* Name *)
    reflexivity.
Qed.







(** ** The labels of the type inferencer *)

Lemma get_expression_return_type_cases (x : node) :
  match get_expression_return_type x with
  | Ok type => List.In type type_labels /\ has_return_type x = true
  | Raised e => (exists kind, e = AttributeError kind "value")
                /\ has_return_type x = false
  end.
Proof.
  induction x as [x IH] using node_children_ind.
  destruct x; simpl in IH |- *;
    try (destruct value; simpl);
    first [ split; [simpl; tauto | reflexivity]
          | split; [eexists; reflexivity | reflexivity]
          | inversion IH; assumption ].
Qed.

(** X3.  A label returned by the type inferencer is one of [int], [string],
    [bool] and [dynamic], also when it is found by following [value]
    attributes; the only exception the inferencer raises is the
    [AttributeError] for a missing attribute [value]. *)
Theorem get_expression_return_type_labels (x : node) :
  (forall type, get_expression_return_type x = Ok type -> List.In type type_labels)
  /\ (forall e, get_expression_return_type x = Raised e ->
                exists kind, e = AttributeError kind "value").
Proof.
  pose proof (get_expression_return_type_cases x) as H.
  split.
  - intros type E. rewrite E in H. apply H.
  - intros e E. rewrite E in H. apply H.
Qed.

Lemma get_expression_return_type_labels_witness :
  List.In "string" type_labels
  /\ exists kind, AttributeError "Tuple" "value" = AttributeError kind "value".
Proof.
  split.
  - apply (proj1 (get_expression_return_type_labels
                    (Attribute (Subscript (Constant (KStr "s"))))) "string").
    reflexivity.
  - apply (proj2 (get_expression_return_type_labels (Starred TupleDisplay))
             (AttributeError "Tuple" "value")).
    reflexivity.
Defined.

(** X4.  The type inferencer returns a label for exactly the objects that are
    [None], a numeric or string literal, a name, call, binary operation,
    comparison, unary operation, lambda or function definition, or that reach
    one of these by following [value] attributes ([has_return_type]); on a list
    or tuple display, a [BoolOp], a conditional expression and the like it
    raises. *)
Theorem get_expression_return_type_returns_iff (x : node) :
  (exists type, get_expression_return_type x = Ok type)
  <-> has_return_type x = true.
Proof.
  pose proof (get_expression_return_type_cases x) as H.
  destruct (get_expression_return_type x) as [type | e]; destruct H as [_ H].
  - split; [intros _; exact H | intros _; now exists type].
  - split; [intros [type E]; discriminate E | rewrite H; discriminate].
Qed.

Lemma get_expression_return_type_returns_iff_witness :
  (exists type,
      get_expression_return_type (Subscript (Attribute (Name "typing"))) = Ok type)
  /\ has_return_type (Constant KNone) = true.
Proof.
  split.
  - apply (proj2 (get_expression_return_type_returns_iff _)). reflexivity.
  - apply (proj1 (get_expression_return_type_returns_iff _)).
    eexists. reflexivity.
Defined.

(** ** The statements the emitter renders *)









(** ** Blocks, argument lists and the top level *)

(** X6.  Every class definition makes the statement emitter raise the
    [AttributeError] for the attribute [bases] of a list, whatever its name,
    bases and body, and so does every block in which a class definition follows
    statements that are rendered. *)
Theorem class_definition_raises (name : string) (bases body : list node) :
  walk_statement (ClassDef name bases body) = Raised (AttributeError "list" "bases")
  /\ (forall done texts rest,
        Forall2 (fun s text => walk_statement s = Ok text) done texts ->
        walk_statements walk_statement (done ++ ClassDef name bases body :: rest)%list
        = Raised (AttributeError "list" "bases")).
Proof.
  split; [reflexivity |].
  intros done texts rest H. unfold walk_statements.
  now rewrite (comprehension_first_failure walk_statement done texts
                 (ClassDef name bases body) rest _ H eq_refl).
Qed.

Lemma class_definition_raises_witness :
  walk_statements walk_statement
    ([Assign [Name "x"] (Constant (KInt 1))] ++ ClassDef "A" [] [Pass] :: [])%list
  = Raised (AttributeError "list" "bases").
Proof.
  apply (proj2 (class_definition_raises "A" [] [Pass])
           [Assign [Name "x"] (Constant (KInt 1))] ["int x = 1;" ++ LF] []).
  repeat constructor.
Defined.

(** X7.  Blocks and expression lists fail fast: when the elements before some
    element are rendered and that element raises, the block, respectively the
    list, raises that element's exception, whatever follows it. *)
Theorem first_failure_wins (e : exn) :
  (forall done texts statement rest,
      Forall2 (fun s text => walk_statement s = Ok text) done texts ->
      walk_statement statement = Raised e ->
      walk_statements walk_statement (done ++ statement :: rest)%list = Raised e)
  /\ (forall done texts expression rest,
        Forall2 (fun x text => walk_expression x = Ok text) done texts ->
        walk_expression expression = Raised e ->
        walk_expression_list walk_expression (done ++ expression :: rest)%list
        = Raised e).
Proof.
  split; intros done texts x rest H Hx.
  - unfold walk_statements.
    now rewrite (comprehension_first_failure _ done texts x rest e H Hx).
  - unfold walk_expression_list.
    now rewrite (comprehension_first_failure _ done texts x rest e H Hx).
Qed.

Lemma first_failure_wins_witness :
  walk_statements walk_statement
    ([Expr (Name "a")] ++ Pass :: [Break])%list
  = Raised (UnsupportedStatement "Pass")
  /\ walk_expression_list walk_expression
       ([Name "a"] ++ ListDisplay :: [TupleDisplay])%list
     = Raised (UnsupportedExpression "List").
Proof.
  destruct (first_failure_wins (UnsupportedStatement "Pass")) as [Hs _].
  destruct (first_failure_wins (UnsupportedExpression "List")) as [_ He].
  split.
  - apply (Hs [Expr (Name "a")] ["a;" ++ LF] Pass [Break]).
    + repeat constructor.
    + reflexivity.
  - apply (He [Name "a"] ["a"] ListDisplay [TupleDisplay]).
    + repeat constructor.
    + reflexivity.
Defined.

(** X8.  The text of a block is the texts of its statements with one line feed
    between neighbours: the empty block gives the empty text, and the block of
    two non-empty lists of statements put end to end is the text of the first,
    a line feed and the text of the second. *)
Theorem walk_statements_app (statements1 statements2 : list node)
  (text1 text2 : string) :
  walk_statements walk_statement [] = Ok ""
  /\ (statements1 <> [] -> statements2 <> [] ->
      walk_statements walk_statement statements1 = Ok text1 ->
      walk_statements walk_statement statements2 = Ok text2 ->
      walk_statements walk_statement (statements1 ++ statements2)%list
      = Ok (text1 ++ LF ++ text2)).
Proof.
  split; [reflexivity |].
  unfold walk_statements. intros N1 N2 H1 H2.
  apply bind_Ok_inv in H1 as [texts1 [H1 [= <-]]].
  apply bind_Ok_inv in H2 as [texts2 [H2 [= <-]]].
  rewrite (comprehension_app _ _ _ _ _ H1 H2). simpl bind.
  apply comprehension_Ok_iff in H1. apply comprehension_Ok_iff in H2.
  rewrite join_app; [reflexivity | |].
  - intros ->. inversion H1. now subst.
  - intros ->. inversion H2. now subst.
Qed.

Lemma walk_statements_app_witness :
  walk_statements walk_statement
    ([Expr (Name "a"); Return (Name "b")] ++ [Return (Name "c")])%list
  = Ok (("a;" ++ LF ++ LF ++ "return b;") ++ LF ++ "return c;").
Proof.
  apply (proj2 (walk_statements_app [Expr (Name "a"); Return (Name "b")]
                  [Return (Name "c")] ("a;" ++ LF ++ LF ++ "return b;")
                  "return c;"));
    (discriminate || reflexivity).
Defined.

Lemma walk_tree_loop_accumulator (body : list node) :
  forall csharp,
    walk_tree_loop csharp body
    = (text <- walk_tree_loop "" body ;; Ok (csharp ++ text)).
Proof.
  induction body as [|s body IH]; intros csharp; simpl.
  - now rewrite append_empty_r.
  - destruct (walk_statement s) as [text | e]; simpl; [| reflexivity].
    rewrite (IH (csharp ++ text)), (IH text).
    destruct (walk_tree_loop "" body) as [rest | e]; simpl; [| reflexivity].
    now rewrite append_assoc.
Qed.

(** X9.  At the top level the texts of the statements are put end to end with
    nothing between them: the text of a module whose body is two lists of
    statements put end to end is the text of the first followed by the text of
    the second, and the empty module gives the empty text. *)
Theorem walk_tree_app (body1 body2 : list node) (text1 text2 : string) :
  walk_tree (mk_module []) = Ok ""
  /\ (walk_tree (mk_module body1) = Ok text1 ->
      walk_tree (mk_module body2) = Ok text2 ->
      walk_tree (mk_module (body1 ++ body2)%list) = Ok (text1 ++ text2)).
Proof.
  split; [reflexivity |].
  unfold walk_tree. simpl module_body. revert text1.
  induction body1 as [|s body1 IH]; intros text1 H1 H2; simpl in *.
  - injection H1 as <-. exact H2.
  - destruct (walk_statement s) as [text | e]; simpl in *; [| discriminate H1].
    rewrite walk_tree_loop_accumulator in H1.
    apply bind_Ok_inv in H1 as [rest [H1 [= <-]]].
    rewrite walk_tree_loop_accumulator.
    rewrite (IH rest H1 H2). simpl. now rewrite append_assoc.
Qed.

Lemma walk_tree_app_witness :
  walk_tree (mk_module ([Expr (Name "a")] ++ [Expr (Name "b")])%list)
  = Ok (("a;" ++ LF) ++ ("b;" ++ LF)).
Proof.
  apply (proj2 (walk_tree_app [Expr (Name "a")] [Expr (Name "b")]
                  ("a;" ++ LF) ("b;" ++ LF)));
    reflexivity.
Defined.

(** ** The operator table and the builtin resolver *)

(** X10.  No two tags of the operator table share a symbol: the symbol written
    for an operator determines the operator. *)
Theorem get_bin_op_symbol_injective (op1 op2 : Op.tag) (symbol : string) :
  get_bin_op_symbol op1 = Ok symbol ->
  get_bin_op_symbol op2 = Ok symbol ->
  op1 = op2.
Proof.
  destruct op1; vm_compute; intros H1; try discriminate H1;
    injection H1 as <-;
    destruct op2; vm_compute; intros H2; (reflexivity || discriminate H2).
Qed.

Lemma get_bin_op_symbol_injective_witness : Op.FloorDiv = Op.FloorDiv.
Proof.
  apply (get_bin_op_symbol_injective Op.FloorDiv Op.FloorDiv "//"); reflexivity.
Defined.

(** X11.  The builtin resolver never returns [print] or [input]: after
    resolution no callee is left with the name of one of the two Python
    builtins. *)
Theorem lookup_call_builtins_never_builtin (function_name : string) :
  lookup_call_builtins function_name <> "print"
  /\ lookup_call_builtins function_name <> "input".
Proof.
  unfold lookup_call_builtins.
  destruct (String.eqb_spec function_name "print") as [-> | Hp];
    [split; discriminate |].
  destruct (String.eqb_spec function_name "input") as [-> | Hi];
    [split; discriminate |].
  split; assumption.
Qed.

Lemma lookup_call_builtins_never_builtin_witness :
  lookup_call_builtins "print" <> "print" /\ lookup_call_builtins "print" <> "input".
Proof. apply (lookup_call_builtins_never_builtin "print"). Defined.

(** ** Literals *)

Lemma substring_0_append (s t : string) :
  substring 0 (String.length s) (s ++ t) = s.
Proof.
  induction s as [|c s IH]; simpl.
  - now destruct t.
  - now rewrite IH.
Qed.

Lemma length_append (s t : string) :
  String.length (s ++ t) = (String.length s + String.length t)%nat.
Proof. induction s as [|c s IH]; simpl; [reflexivity | now rewrite IH]. Qed.

(** X12.  A string literal is copied between two double quotes unchanged, with
    no character escaped or dropped: the text is two characters longer than the
    literal, and the literal is read back by dropping the first and the last
    character. *)
Theorem walk_str_verbatim (s : string) :
  exists text,
    walk_expression (Constant (KStr s)) = Ok text
    /\ String.length text = (String.length s + 2)%nat
    /\ substring 0 1 text = DQUOTE
    /\ substring 1 (String.length s) text = s
    /\ substring (1 + String.length s) 1 text = DQUOTE.
Proof.
  exists (walk_str s). unfold walk_str. split; [reflexivity |].
  split; [| split; [now destruct s | split]].
  - simpl. rewrite length_append. simpl. lia.
  - simpl. apply substring_0_append.
  - simpl. induction s as [|c s IH]; [reflexivity | exact IH].
Qed.


(** ** Comparisons *)

Lemma walk_comp_items_pairs (ops : list Op.tag) (symbols : list string) :
  Forall2 (fun op symbol => get_bin_op_symbol op = Ok symbol) ops symbols ->
  forall comparators texts,
    Forall2 (fun c r => walk_expression c = Ok r) comparators texts ->
    List.length ops = List.length comparators ->
    walk_comp_items walk_expression ops comparators
    = Ok (map (fun p => fst p ++ " " ++ snd p) (combine symbols texts)).
Proof.
  induction 1 as [|op symbol ops symbols Hop _ IH];
    intros comparators texts Hc Hlen.
  - destruct comparators; [| discriminate Hlen]. reflexivity.
  - destruct Hc as [|c r comparators texts Hr Hc]; [discriminate Hlen |].
    injection Hlen as Hlen. simpl.
    rewrite Hop. simpl. rewrite Hr. simpl. now rewrite (IH _ _ Hc Hlen).
Qed.

Lemma join_space_prefixed (items : list string) :
  items <> [] ->
  " " ++ join " " items = concat_texts (map (fun item => " " ++ item) items).
Proof.
  intros H. induction items as [|x items IH]; [contradiction |].
  destruct items as [|y items].
  - simpl. now rewrite append_empty_r.
  - rewrite join_cons.
    change (concat_texts (map (fun item => " " ++ item) (x :: y :: items)))
      with ((" " ++ x)
            ++ concat_texts (map (fun item => " " ++ item) (y :: items))).
    rewrite <- IH by discriminate. reflexivity.
Qed.

(** X14.  A comparison with as many operators as comparators, and at least
    one, is rendered as its left operand followed, for each operator and
    comparator in order, by a space, the operator's symbol, a space and the
    comparator: a chain such as [a < b <= c] comes out as a flat sequence. *)
Theorem walk_comp_op_chain (left_ : node) (ops : list Op.tag)
  (comparators : list node) (l : string) (symbols texts : list string) :
  walk_expression left_ = Ok l ->
  Forall2 (fun op symbol => get_bin_op_symbol op = Ok symbol) ops symbols ->
  Forall2 (fun c r => walk_expression c = Ok r) comparators texts ->
  List.length ops = List.length comparators ->
  comparators <> [] ->
  walk_expression (Compare left_ ops comparators)
  = Ok (l ++ concat_texts
               (map (fun p => " " ++ fst p ++ " " ++ snd p) (combine symbols texts))).
Proof.
  intros Hl Hops Hcs Hlen Hne.
  rewrite walk_expression_Compare. unfold walk_comp_op.
  rewrite (bind_Ok_eq _ _ _ Hl). cbv beta.
  rewrite (bind_Ok_eq _ _ _ (walk_comp_items_pairs _ _ Hops _ _ Hcs Hlen)).
  cbv beta. rewrite join_space_prefixed.
  - now rewrite map_map.
  - destruct Hcs as [|c r cs ts _ _]; [contradiction |].
    destruct Hops as [|op symbol os ss _ _]; discriminate.
Qed.

Lemma walk_comp_op_chain_witness :
  walk_expression (Compare (Name "a") [Op.Lt; Op.LtE] [Name "b"; Name "c"])
  = Ok ("a" ++ " < b" ++ " <= c" ++ "").
Proof.
  apply (walk_comp_op_chain (Name "a") [Op.Lt; Op.LtE] [Name "b"; Name "c"]
           "a" ["<"; "<="] ["b"; "c"]);
    try reflexivity; try discriminate; repeat constructor.
Defined.




(** ** Expressions stay on one line *)

Lemma has_line_feed_append (a b : string) :
  has_line_feed (a ++ b) = has_line_feed a || has_line_feed b.
Proof.
  induction a as [|c a IH]; simpl; [reflexivity |].
  now rewrite IH, orb_assoc.
Qed.

Lemma has_line_feed_join (sep : string) (l : list string) :
  has_line_feed sep = false ->
  Forall (fun text => has_line_feed text = false) l ->
  has_line_feed (join sep l) = false.
Proof.
  intros Hsep. induction 1 as [|x l Hx Hl IH]; [reflexivity |].
  destruct l as [|y l]; [exact Hx |].
  rewrite join_cons, !has_line_feed_append, Hx, Hsep, IH. reflexivity.
Qed.

Lemma has_line_feed_string_of_uint (d : Decimal.uint) :
  has_line_feed (NilEmpty.string_of_uint d) = false.
Proof. induction d; simpl; auto. Qed.

Lemma has_line_feed_str_int (n : Z) : has_line_feed (str_int n) = false.
Proof.
  unfold str_int. destruct (Z.to_int n) as [d | d]; simpl.
  - destruct d; try reflexivity; simpl; apply has_line_feed_string_of_uint.
  - destruct d; try reflexivity; simpl; apply has_line_feed_string_of_uint.
Qed.

Lemma has_line_feed_symbol (op : Op.tag) (symbol : string) :
  get_bin_op_symbol op = Ok symbol -> has_line_feed symbol = false.
Proof.
  destruct op; vm_compute; intros H; try discriminate H;
    injection H as <-; reflexivity.
Qed.

Lemma has_line_feed_class_name (op : Op.tag) :
  has_line_feed (Op.class_name op) = false.
Proof. destruct op; reflexivity. Qed.

Lemma has_line_feed_lookup_call_builtins (f : string) :
  has_line_feed f = false -> has_line_feed (lookup_call_builtins f) = false.
Proof.
  intros H. unfold lookup_call_builtins.
  destruct (f =? "print"); [reflexivity |].
  destruct (f =? "input"); [reflexivity | exact H].
Qed.

Lemma has_line_feed_walk_argument_list (a : arguments) :
  forallb (fun argument => negb (has_line_feed (arg argument))) (args a) = true ->
  has_line_feed (walk_argument_list a) = false.
Proof.
  intros H. unfold walk_argument_list.
  apply has_line_feed_join; [reflexivity |].
  rewrite forallb_forall in H. apply Forall_forall.
  intros text Hin. apply in_map_iff in Hin as [argument [<- Hin]].
  rewrite has_line_feed_append. simpl.
  apply H in Hin. now apply negb_true_iff in Hin.
Qed.

(** Splits [has_line_feed] over the pieces of a text. *)
Ltac line_feed_split :=
  repeat first [rewrite has_line_feed_append | progress cbn [has_line_feed]].

Lemma walk_comp_items_one_line (comparators : list node) :
  Forall (fun x => names_on_one_line x = true ->
                   forall text, walk_expression x = Ok text ->
                                has_line_feed text = false) comparators ->
  forallb names_on_one_line comparators = true ->
  forall ops items,
    walk_comp_items walk_expression ops comparators = Ok items ->
    Forall (fun text => has_line_feed text = false) items.
Proof.
  induction 1 as [|c cs Hc _ IH]; intros Hn ops items H; simpl in *.
  - injection H as <-. constructor.
  - apply andb_prop in Hn as [Hnc Hncs].
    apply bind_Ok_inv in H as [op [_ H]].
    apply bind_Ok_inv in H as [symbol [Hsymbol H]].
    apply bind_Ok_inv in H as [r [Hr H]].
    apply bind_Ok_inv in H as [rest [Hrest [= <-]]].
    constructor; [| now apply (IH Hncs _ _ Hrest)].
    line_feed_split.
    now rewrite (has_line_feed_symbol _ _ Hsymbol), (Hc Hnc _ Hr).
Qed.

Lemma walk_expression_one_line (x : node) :
  names_on_one_line x = true ->
  forall text, walk_expression x = Ok text -> has_line_feed text = false.
Proof.
  induction x as [x IH] using node_children_ind.
  destruct x; try discriminate; simpl in IH; simpl names_on_one_line;
    intros Hn text H.
  - (* BinOp *)
    rewrite walk_expression_BinOp in H. unfold walk_bin_op in H.
    apply bind_Ok_inv in H as [l [Hl H]].
    apply bind_Ok_inv in H as [symbol [Hsymbol H]].
    apply bind_Ok_inv in H as [r [Hr [= <-]]].
    apply andb_prop in Hn as [Hnl Hnr].
    inversion IH as [|? ? IHl IH']; subst. inversion IH' as [|? ? IHr _]; subst.
    line_feed_split.
    now rewrite (IHl Hnl _ Hl), (IHr Hnr _ Hr), (has_line_feed_symbol _ _ Hsymbol).
  - (* Compare *)
    rewrite walk_expression_Compare in H. unfold walk_comp_op in H.
    apply bind_Ok_inv in H as [l [Hl H]].
    apply bind_Ok_inv in H as [items [Hitems [= <-]]].
    apply andb_prop in Hn as [Hnl Hncs].
    inversion IH as [|? ? IHl IHcs]; subst.
    line_feed_split. rewrite (IHl Hnl _ Hl).
    rewrite (has_line_feed_join " " items eq_refl
               (walk_comp_items_one_line _ IHcs Hncs _ _ Hitems)).
    reflexivity.
  - (* UnaryOp *)
    rewrite walk_expression_UnaryOp in H. unfold walk_unary_op in H.
    apply bind_Ok_inv in H as [o [Ho [= <-]]].
    inversion IH as [|? ? IHo _]; subst.
    line_feed_split.
    now rewrite has_line_feed_class_name, (IHo Hn _ Ho).
  - (* Lambda *)
    rewrite walk_expression_Lambda in H. unfold walk_lambda in H.
    apply bind_Ok_inv in H as [b [Hb [= <-]]].
    apply andb_prop in Hn as [Hna Hnb].
    inversion IH as [|? ? IHb _]; subst.
    line_feed_split.
    now rewrite (has_line_feed_walk_argument_list _ Hna), (IHb Hnb _ Hb).
  - (* Call *)
    rewrite walk_expression_Call in H. unfold walk_call, walk_expression_list in H.
    apply bind_Ok_inv in H as [f [Hf H]].
    apply bind_Ok_inv in H as [a [Ha [= <-]]].
    apply bind_Ok_inv in Ha as [texts [Htexts [= <-]]].
    apply andb_prop in Hn as [Hnf Hna].
    inversion IH as [|? ? IHf IHa]; subst.
    line_feed_split.
    rewrite (has_line_feed_lookup_call_builtins _ (IHf Hnf _ Hf)).
    rewrite has_line_feed_join; [reflexivity | reflexivity |].
    apply comprehension_Ok_iff in Htexts.
    rewrite forallb_forall in Hna. rewrite Forall_forall in IHa.
    apply (Forall2_Forall_r _ _ _ _ Htexts).
    intros y t Hin Hy. exact (IHa y Hin (Hna y Hin) t Hy).
  - (* Constant *)
    destruct value; try discriminate H; injection H as <-; simpl.
    + apply has_line_feed_str_int.
    + now apply negb_true_iff in Hn.
    + now apply negb_true_iff in Hn.
    + unfold walk_str, DQUOTE. line_feed_split.
      apply negb_true_iff in Hn. now rewrite Hn.
  - (* Name *)
    injection H as <-. now apply negb_true_iff in Hn.
Qed.

(** X16.  The text of an expression is a single line: when no name, parameter
    name or literal of the expression holds a line feed, neither does the text
    the expression emitter returns for it. *)
Theorem walk_expression_single_line (x : node) (text : string) :
  names_on_one_line x = true ->
  walk_expression x = Ok text ->
  has_line_feed text = false.
Proof. intros Hn H. exact (walk_expression_one_line x Hn text H). Qed.

Lemma walk_expression_single_line_witness :
  has_line_feed "Console.WriteLine((dynamic a) => a ** 2, x < y)" = false.
Proof.
  apply (walk_expression_single_line
           (Call (Name "print")
              [Lambda (mk_arguments [mk_arg "a"])
                 (BinOp (Name "a") Op.Pow (Constant (KInt 2)));
               Compare (Name "x") [Op.Lt] [Name "y"]]));
    reflexivity.
Defined.

(** ** The exceptions of the statement emitter and the outcome of a translation *)










(** ** The text of the remaining node kinds *)









(** X23.  Every assignment comes out as a declaration: the text of a rendered
    assignment starts with one of the four type labels and a space, and the
    label is [int] or [string] only when the value is a numeric, respectively
    string, literal. *)
Theorem walk_assign_declares (targets : list node) (value : node) (text : string) :
  walk_statement (Assign targets value) = Ok text ->
  exists type rest,
    text = type ++ " " ++ rest
    /\ List.In type type_labels
    /\ (type = "int" -> is_Num value = true)
    /\ (type = "string" -> is_Str value = true).
Proof.
  rewrite walk_statement_Assign. unfold walk_assign. intros H.
  apply bind_Ok_inv in H as [type [Htype H]].
  apply bind_Ok_inv in H as [target [_ H]].
  apply bind_Ok_inv in H as [t [_ H]].
  apply bind_Ok_inv in H as [v [Hv [= <-]]].
  exists type, (t ++ " = " ++ v ++ ";" ++ LF).
  split; [reflexivity |].
  pose proof (get_expression_return_type_cases value) as C.
  rewrite Htype in C. destruct C as [C _]. split; [exact C |].
  apply walk_expression_Ok_supported in Hv.
  destruct value; try discriminate Hv; simpl in Htype;
    try (injection Htype as <-; split; discriminate).
  destruct value; try discriminate Hv; injection Htype as <-;
    split; (reflexivity || discriminate).
Qed.

Lemma walk_assign_declares_witness :
  exists type rest,
    "dynamic x = y + 1;" ++ LF = type ++ " " ++ rest
    /\ List.In type type_labels
    /\ (type = "int" -> is_Num (BinOp (Name "y") Op.Add (Constant (KInt 1))) = true)
    /\ (type = "string" ->
        is_Str (BinOp (Name "y") Op.Add (Constant (KInt 1))) = true).
Proof.
  apply (walk_assign_declares [Name "x"]
           (BinOp (Name "y") Op.Add (Constant (KInt 1)))).
  reflexivity.
Defined.

(** ** Where the text of a statement ends *)

Lemma nonempty_append_r (a b : string) : b <> "" -> a ++ b <> "".
Proof. intros H. destruct a; [exact H | discriminate]. Qed.

Lemma ends_with_line_feed_String (c : ascii) (text : string) :
  text <> "" -> ends_with_line_feed (String c text) = ends_with_line_feed text.
Proof. destruct text; [contradiction | reflexivity]. Qed.

Lemma ends_with_line_feed_append (a b : string) :
  b <> "" -> ends_with_line_feed (a ++ b) = ends_with_line_feed b.
Proof.
  intros H. induction a as [|c a IH]; [reflexivity |].
  change (String c a ++ b) with (String c (a ++ b)).
  rewrite ends_with_line_feed_String; [exact IH | now apply nonempty_append_r].
Qed.

(** Proves that a text built from pieces, the last of them given, is not
    empty. *)
Ltac text_nonempty :=
  repeat first [ discriminate | apply nonempty_append_r ].

(** Moves [ends_with_line_feed] to the last piece of a text. *)
Ltac to_last_piece :=
  repeat first
    [ rewrite ends_with_line_feed_append by text_nonempty
    | rewrite ends_with_line_feed_String by text_nonempty ].

(** X24.  The text of an assignment, a conditional and an expression statement
    ends with a line feed; the text of a function definition, a [return] and a
    loop does not.  As the top level puts the texts end to end, what follows a
    function definition or a loop there starts right after its closing
    brace. *)
Theorem walk_statement_line_end (x : node) (text : string) :
  walk_statement x = Ok text ->
  ends_with_line_feed text = ends_its_line x.
Proof.
  destruct x; try discriminate; intros H; simpl ends_its_line.
  - rewrite walk_statement_FunctionDef in H. unfold walk_function_def in H.
    bind_inversion H. injection H as <-. now to_last_piece.
  - match type of H with context [Return ?r] => rename r into value end.
    change (walk_statement (Return value)) with (walk_return value) in H.
    unfold walk_return in H. bind_inversion H. injection H as <-.
    now to_last_piece.
  - rewrite walk_statement_Assign in H. unfold walk_assign in H.
    bind_inversion H. injection H as <-. now to_last_piece.
  - rewrite walk_statement_For in H. unfold walk_for in H.
    bind_inversion H. injection H as <-. now to_last_piece.
  - rewrite walk_statement_While in H. unfold walk_while in H.
    bind_inversion H. injection H as <-. now to_last_piece.
  - rewrite walk_statement_If in H. unfold walk_if in H.
    destruct (List.length orelse =? 0)%nat;
      bind_inversion H; injection H as <-; now to_last_piece.
  - rewrite walk_statement_Expr in H.
    bind_inversion H. injection H as <-. now to_last_piece.
Qed.

Lemma walk_statement_line_end_witness :
  ends_with_line_feed ("while (c) {" ++ LF ++ ("x;" ++ LF) ++ LF ++ "}") = false
  /\ ends_with_line_feed ("x;" ++ LF) = true.
Proof.
  split.
  - apply (walk_statement_line_end (While (Name "c") [Expr (Name "x")])).
    reflexivity.
  - apply (walk_statement_line_end (Expr (Name "x"))). reflexivity.
Defined.
